(** * defx.nvim: the View orchestration engine (rplugin/python3/defx/view.py)

    A shallow embedding of [View] and of the Python values it manipulates:
    candidates are dicts ([gmap string pyval]), the aggregated sequence and
    the selection are Python lists, every method is a state transformer over
    the [View] object that may raise, and the state reached when an exception
    is raised is kept (Python does not roll back).  The collaborators whose
    code lives in other modules (tree sessions, columns, the action module,
    the editor) are interfaces, given as type classes. *)

From stdpp Require Import gmap strings list pretty.
From Stdlib Require Import ZArith Lia.

Local Open Scope Z_scope.

(** ** Python values, exceptions, subscripting *)

Inductive pyval : Type :=
  | PyStr (s : string)
  | PyInt (z : Z)
  | PyBool (b : bool).

#[global] Instance pyval_eq_dec : EqDecision pyval.
Proof. solve_decision. Defined.

Inductive exn : Type :=
  | KeyError (key : string)
  | IndexError
  | CdRejected
  | NoSuchSession.

Inductive result (A : Type) : Type :=
  | Ok (a : A)
  | Raise (e : exn).
Arguments Ok {A} a.
Arguments Raise {A} e.

(** A [bool] is an [int] in Python: [True == 1]. *)
Definition py_int (v : pyval) : option Z :=
  match v with
  | PyInt z => Some z
  | PyBool b => Some (if b then 1 else 0)
  | PyStr _ => None
  end.

(** Python's [==] on the values a candidate holds. *)
Definition py_eq (a b : pyval) : bool :=
  match a, b with
  | PyStr s, PyStr t => bool_decide (s = t)
  | PyStr _, _ => false
  | _, PyStr _ => false
  | _, _ => bool_decide (py_int a = py_int b)
  end.

(** [l[i]] resolves a negative [i] from the end of the list; the position
    it denotes, if any. *)
Definition py_position (n : nat) (i : Z) : option nat :=
  if bool_decide (0 <= i < Z.of_nat n) then Some (Z.to_nat i)
  else if bool_decide (- Z.of_nat n <= i < 0) then Some (Z.to_nat (i + Z.of_nat n))
  else None.

Definition py_getitem {A : Type} (l : list A) (i : Z) : option A :=
  k ← py_position (length l) i; l !! k.

(** A candidate is a dict; [{}] is [∅]. *)
Abbreviation Candidate := (gmap string pyval).

(** ** The objects the View holds *)

(** [Context] is a namedtuple; these are the fields view.py reads or
    replaces. *)
Record Context : Type := {
  search : string;
  targets : list Candidate;
  args : list string;
  cursor : Z
}.

(** [Context._replace(targets=..., args=..., cursor=...)]. *)
Definition _replace (c : Context) (t : list Candidate) (a : list string) (cur : Z) : Context :=
  {| search := search c; targets := t; args := a; cursor := cur |}.

(** Modelled from the spec: the Tree Session object ([Defx], defined in
    defx/defx.py), reduced to the attributes view.py reads and writes: its
    stable index, its current root and its per-directory cursor history. *)
Record Defx : Type := {
  _index : Z;
  _cwd : string;
  _cursor_history : gmap string pyval
}.

(** [Defx(vim, context, path, index)]. *)
Definition Defx_new (path : string) (index : Z) : Defx :=
  {| _index := index; _cwd := path; _cursor_history := ∅ |}.

(** A column object: [name] and [length()] are the column's own, [start],
    [end] and [syntax_name] are assigned by [View.__init__]. *)
Record Column : Type := {
  col_name : string;
  col_length : Z;
  col_start : Z;
  col_end : Z;
  col_syntax_name : string
}.

(** The editor as the View sees it: the options of the current buffer and
    window, the lines of the current buffer, the cursor line ([line('.')],
    1-based) and the Ex commands issued so far. *)
Record Nvim : Type := {
  buffer_options : gmap string pyval;
  window_options : gmap string pyval;
  buffer : list string;
  line : positive;
  commands : list string
}.

(** One call of [defx.action.do_action]: the session (by its position in
    [_defxs]), the action name and the execution context. *)
Record ActionCall : Type := {
  call_defx : nat;
  call_name : string;
  call_context : Context
}.

(** The [View] object.  [dispatched] is ghost state: the calls made to the
    action module, oldest first. *)
Record View : Type := {
  _vim : Nvim;
  _candidates : list Candidate;
  _selected_candidates : list Z;
  _context : Context;
  _defxs : list Defx;
  _columns : list Column;
  dispatched : list ActionCall
}.

Definition set_vim (f : Nvim → Nvim) (v : View) : View :=
  {| _vim := f (_vim v); _candidates := _candidates v;
     _selected_candidates := _selected_candidates v; _context := _context v;
     _defxs := _defxs v; _columns := _columns v; dispatched := dispatched v |}.

Definition set_candidates (f : list Candidate → list Candidate) (v : View) : View :=
  {| _vim := _vim v; _candidates := f (_candidates v);
     _selected_candidates := _selected_candidates v; _context := _context v;
     _defxs := _defxs v; _columns := _columns v; dispatched := dispatched v |}.

Definition set_selected_candidates (f : list Z → list Z) (v : View) : View :=
  {| _vim := _vim v; _candidates := _candidates v;
     _selected_candidates := f (_selected_candidates v); _context := _context v;
     _defxs := _defxs v; _columns := _columns v; dispatched := dispatched v |}.

Definition set_defxs (f : list Defx → list Defx) (v : View) : View :=
  {| _vim := _vim v; _candidates := _candidates v;
     _selected_candidates := _selected_candidates v; _context := _context v;
     _defxs := f (_defxs v); _columns := _columns v; dispatched := dispatched v |}.

Definition set_columns (f : list Column → list Column) (v : View) : View :=
  {| _vim := _vim v; _candidates := _candidates v;
     _selected_candidates := _selected_candidates v; _context := _context v;
     _defxs := _defxs v; _columns := f (_columns v); dispatched := dispatched v |}.

Definition set_dispatched (f : list ActionCall → list ActionCall) (v : View) : View :=
  {| _vim := _vim v; _candidates := _candidates v;
     _selected_candidates := _selected_candidates v; _context := _context v;
     _defxs := _defxs v; _columns := _columns v; dispatched := f (dispatched v) |}.

(** The View without its ghost log. *)
Definition hide_log (v : View) : View := set_dispatched (λ _, []) v.

Definition set_buffer_options (f : gmap string pyval → gmap string pyval) (n : Nvim) : Nvim :=
  {| buffer_options := f (buffer_options n); window_options := window_options n;
     buffer := buffer n; line := line n; commands := commands n |}.

Definition set_window_options (f : gmap string pyval → gmap string pyval) (n : Nvim) : Nvim :=
  {| buffer_options := buffer_options n; window_options := f (window_options n);
     buffer := buffer n; line := line n; commands := commands n |}.

Definition set_line (l : positive) (n : Nvim) : Nvim :=
  {| buffer_options := buffer_options n; window_options := window_options n;
     buffer := buffer n; line := l; commands := commands n |}.

(** [vim.command(cmd)]. *)
Definition vim_command (cmd : string) (n : Nvim) : Nvim :=
  {| buffer_options := buffer_options n; window_options := window_options n;
     buffer := buffer n; line := line n; commands := commands n ++ [cmd] |}.

(** ** Methods are state transformers that may raise *)

Definition M (A : Type) : Type := View → result A * View.

#[global] Instance M_ret : MRet M := λ A a v, (Ok a, v).

#[global] Instance M_bind : MBind M := λ A B f m v,
  match m v with
  | (Ok a, v') => f a v'
  | (Raise e, v') => (Raise e, v')
  end.

Definition ret {A : Type} (a : A) : M A := mret a.
Definition raise {A : Type} (e : exn) : M A := λ v, (Raise e, v).
Definition gets {A : Type} (f : View → A) : M A := λ v, (Ok (f v), v).
Definition modify (f : View → View) : M unit := λ v, (Ok tt, f v).

(** [d[key]] on a dict. *)
Definition subscript (d : Candidate) (key : string) : M pyval :=
  match d !! key with
  | Some x => ret x
  | None => raise (KeyError key)
  end.

(** A list comprehension [[f(x) for x in l]] whose element expression may
    raise: elements are evaluated in order. *)
Fixpoint comprehension {A B : Type} (f : A → M B) (l : list A) : M (list B) :=
  match l with
  | [] => ret []
  | x :: l' => y ← f x; ys ← comprehension f l'; ret (y :: ys)
  end.

(** [[x for x in l if p(x)]]. *)
Fixpoint comprehension_if {A : Type} (p : A → M bool) (l : list A) : M (list A) :=
  match l with
  | [] => ret []
  | x :: l' =>
      b ← p x; ys ← comprehension_if p l';
      ret (if (b : bool) then x :: ys else ys)
  end.

(** [for x in l: body(x)]. *)
Fixpoint for_each {A : Type} (body : A → M unit) (l : list A) : M unit :=
  match l with
  | [] => ret tt
  | x :: l' => body x;; for_each body l'
  end.

(** ** Collaborators *)

(** Modelled from the spec: the Tree Session contract consumed by the View
    (the methods of [Defx], defined in defx/defx.py).  [get_root_candidate]
    and [gather_candidates] build fresh candidate dicts on each call;
    [cd_accepted] tells whether the session takes [path] as its new root. *)
Class TreeSession : Type := {
  get_root_candidate : Defx → Candidate;
  gather_candidates : Defx → list Candidate;
  cd_accepted : Defx → string → bool
}.

(** Modelled from the spec: the Column contract (defx/column/mark.py and
    defx/column/filename.py): the two column objects as their constructors
    leave them, and their [get] and [highlight] methods. *)
Class Columns : Type := {
  Mark : Column;
  Filename : Column;
  column_get : Column → Context → Candidate → string;
  column_highlight : Column → Nvim → Nvim
}.

(** Modelled from the spec: the Host Surface decides where the cursor rests
    after the lines of the buffer are replaced. *)
Class Host : Type := {
  cursor_after_replace : positive → list string → positive
}.

(** Modelled from the spec: the Action Dispatcher ([defx.action.do_action]):
    it runs on the View, may change it and may raise. *)
Class ActionDispatcher : Type := {
  action_do_action : nat → string → Context → M unit
}.

(** [history[defx._cwd] = p] on the session's own history dict. *)
Definition record_history (d : Defx) (p : pyval) : Defx :=
  {| _index := _index d; _cwd := _cwd d;
     _cursor_history := <[_cwd d := p]> (_cursor_history d) |}.

(** [self._cwd = path]. *)
Definition change_root (d : Defx) (path : string) : Defx :=
  {| _index := _index d; _cwd := path; _cursor_history := _cursor_history d |}.

(** [vim.call('defx#util#execute_path', 'silent keepalt edit', '[defx]')]:
    the current buffer becomes a new one, empty, with the cursor on its
    only line. *)
Definition edit_defx_buffer (n : Nvim) : Nvim :=
  {| buffer_options := ∅; window_options := window_options n;
     buffer := [EmptyString]; line := 1%positive; commands := commands n |}.

(** [vim.current.buffer[:] = lines]. *)
Definition replace_lines `{Host} (lines : list string) (n : Nvim) : Nvim :=
  {| buffer_options := buffer_options n; window_options := window_options n;
     buffer := lines; line := cursor_after_replace (line n) lines;
     commands := commands n |}.

(** [vim.call('cursor', [linenr, 1])]. *)
Definition vim_cursor (linenr : positive) : M unit :=
  modify (set_vim (set_line linenr)).

(** The double quote character. *)
Definition dquote : string :=
  String (Ascii.Ascii false true false false false true false false) EmptyString.

(** ** View *)

(** The loop of [View.__init__] over the column objects: [start] runs from
    left to right, each column is given its span and its syntax name and is
    appended to [_columns]. *)
Fixpoint init_columns (start : Z) (columns : list Column) : list Column :=
  match columns with
  | [] => []
  | column :: rest =>
      {| col_name := col_name column;
         col_length := col_length column;
         col_start := start;
         col_end := start + col_length column - 1;
         col_syntax_name := "Defx_" +:+ col_name column |}
      :: init_columns (start + col_length column) rest
  end.

(** [x['_defx_index'] = defx._index] for every candidate of a session. *)
Definition tag (defx : Defx) (candidate : Candidate) : Candidate :=
  <["_defx_index" := PyInt (_index defx)]> candidate.

(** [self._candidates[index]['is_selected'] = True]: the position [index]
    is resolved as Python does, and an index out of range raises. *)
Definition mark_selected (index : Z) : M unit :=
  cs ← gets _candidates;
  match py_position (length cs) index with
  | Some k => modify (set_candidates (alter (<["is_selected" := PyBool true]>) k))
  | None => raise IndexError
  end.

(** The scan of [search_file]: the line of the first candidate of session
    [index] whose path is [path], counting from [linenr]; looking up a key a
    candidate lacks raises. *)
Fixpoint search_file_scan (cs : list Candidate) (path index : pyval) (linenr : positive)
  : result (option positive) :=
  match cs with
  | [] => Ok None
  | candidate :: rest =>
      match candidate !! "_defx_index" with
      | None => Raise (KeyError "_defx_index")
      | Some i =>
          if py_eq i index then
            match candidate !! "action__path" with
            | None => Raise (KeyError "action__path")
            | Some p =>
                if py_eq p path then Ok (Some linenr)
                else search_file_scan rest path index (Pos.succ linenr)
            end
          else search_file_scan rest path index (Pos.succ linenr)
      end
  end.

Section View.
Context {sessions : TreeSession} {columns : Columns}
        {host : Host} {actions : ActionDispatcher}.

Definition init_buffer : M unit :=
  modify (set_vim edit_defx_buffer);;
  modify (set_vim (set_window_options (<["list" := PyBool false]>)));;
  modify (set_vim (set_window_options (<["wrap" := PyBool false]>)));;
  modify (set_vim (set_buffer_options (<["buftype" := PyStr "nofile"]>)));;
  modify (set_vim (set_buffer_options (<["swapfile" := PyBool false]>)));;
  modify (set_vim (set_buffer_options (<["modeline" := PyBool false]>)));;
  modify (set_vim (set_buffer_options (<["filetype" := PyStr "defx"]>)));;
  modify (set_vim (set_buffer_options (<["modifiable" := PyBool false]>)));;
  modify (set_vim (set_buffer_options (<["modified" := PyBool false]>)));;
  modify (set_vim (set_buffer_options (<["buflisted" := PyBool false]>)));;
  modify (set_vim (set_buffer_options (<["bufhidden" := PyStr "wipe"]>)));;
  modify (set_vim (vim_command "silent doautocmd FileType defx"));;
  modify (set_vim (vim_command "augroup defx | autocmd! | augroup END"));;
  modify (set_vim (vim_command
    ("autocmd defx FocusGained <buffer> " +:+
     "call defx#_do_action(" +:+ dquote +:+ "redraw" +:+ dquote +:+ ", [])"))).

Definition init_syntax : M unit :=
  cols ← gets _columns;
  for_each (λ column,
    modify (set_vim (vim_command ("silent! syntax clear " +:+ col_syntax_name column)));;
    modify (set_vim (vim_command
      ("syntax region " +:+ col_syntax_name column +:+
       " start=/\%" +:+ pretty (col_start column) +:+ "v/ end=/\%" +:+
       pretty (col_end column) +:+ "v/ keepend oneline")));;
    modify (set_vim (column_highlight column))) cols.

Definition init_candidates : M unit :=
  modify (set_candidates (λ _, []));;
  defxs ← gets _defxs;
  for_each (λ defx,
    let candidates := [get_root_candidate defx] ++ gather_candidates defx in
    let candidates := tag defx <$> candidates in
    modify (set_candidates (λ cs, cs ++ candidates))) defxs;;
  (* Set is_selected flag *)
  selected ← gets _selected_candidates;
  for_each mark_selected selected.

Definition get_columns_text (context : Context) (candidate : Candidate) : M string :=
  cols ← gets _columns;
  ret (foldl (λ text column, text +:+ column_get column context candidate)
             EmptyString cols).

Definition get_cursor_candidate (cursor : Z) : M Candidate :=
  cs ← gets _candidates;
  if bool_decide (Z.of_nat (length cs) < cursor) then ret ∅
  else match py_getitem cs (cursor - 1) with
       | Some c => ret c
       | None => raise IndexError
       end.

Definition get_selected_candidates (cursor index : Z) : M (list Candidate) :=
  selected ← gets _selected_candidates;
  candidates ←
    (if bool_decide (selected = []) then
       c ← get_cursor_candidate cursor; ret [c]
     else
       comprehension (λ x,
         cs ← gets _candidates;
         match py_getitem cs x with
         | Some c => ret c
         | None => raise IndexError
         end) selected);
  comprehension_if (λ x,
    i ← subscript x "_defx_index"; ret (py_eq i (PyInt index))) candidates.

Definition search_file (path index : pyval) : M unit :=
  cs ← gets _candidates;
  match search_file_scan cs path index 1%positive with
  | Ok (Some linenr) => vim_cursor linenr
  | Ok None => ret tt
  | Raise e => raise e
  end.

Definition redraw (is_force : bool) : M unit :=
  opts ← gets (buffer_options ∘ _vim);
  if negb (py_eq (default (PyStr EmptyString) (opts !! "filetype")) (PyStr "defx"))
  then ret tt
  else
    l ← gets (line ∘ _vim);
    prev ← get_cursor_candidate (Z.pos l);
    (if is_force then
       modify (set_selected_candidates (λ _, []));;
       init_candidates
     else ret tt);;
    modify (set_vim (set_buffer_options (<["modifiable" := PyBool true]>)));;
    context ← gets _context;
    cs ← gets _candidates;
    lines ← comprehension (get_columns_text context) cs;
    modify (set_vim (replace_lines lines));;
    modify (set_vim (set_buffer_options (<["modifiable" := PyBool false]>)));;
    modify (set_vim (set_buffer_options (<["modified" := PyBool false]>)));;
    if bool_decide (prev ≠ ∅) then
      p ← subscript prev "action__path";
      i ← subscript prev "_defx_index";
      search_file p i
    else ret tt.

(** The session object [defx] handed to [cd] and to the action module is
    one of [self._defxs]; it is designated by its position there. *)
Definition the_defx (k : nat) : M Defx :=
  defxs ← gets _defxs;
  match defxs !! k with
  | Some d => ret d
  | None => raise NoSuchSession
  end.

(** [Defx.cd(path)]: the session's root becomes [path], or the session
    rejects the change and raises. *)
Definition Defx_cd (k : nat) (path : string) : M unit :=
  d ← the_defx k;
  if cd_accepted d path then modify (set_defxs (<[k := change_root d path]>))
  else raise CdRejected.

Definition cd (k : nat) (path : string) (cursor : Z) : M unit :=
  (* Save previous cursor position *)
  d ← the_defx k;
  c ← get_cursor_candidate cursor;
  p ← subscript c "action__path";
  let history := _cursor_history (record_history d p) in
  modify (set_defxs (<[k := record_history d p]>));;
  Defx_cd k path;;
  redraw true;;
  (match history !! path with
   | Some h => search_file h (PyInt (_index d))
   | None => ret tt
   end);;
  modify (set_selected_candidates (λ _, [])).

(** [action.do_action(self, defx, action_name, context)]: the action module
    runs on the View and its outcome and the View it leaves are those of
    the call.  The call is appended to the ghost log, which the action
    module neither sees nor touches. *)
Definition call_action (k : nat) (action_name : string) (context : Context) : M unit :=
  λ v,
    let call := {| call_defx := k; call_name := action_name; call_context := context |} in
    let (r, v') := action_do_action k action_name context (hide_log v) in
    (r, set_dispatched (λ _, dispatched v ++ [call]) v').

(** [new_context['cursor']] is passed as [cursor]. *)
Definition do_action (action_name : string) (action_args : list string) (cursor : Z) : M unit :=
  cs ← gets _candidates;
  if bool_decide (cs = []) then ret tt
  else
    defxs ← gets _defxs;
    for_each (λ '(k, defx),
      targets ← get_selected_candidates cursor (_index defx);
      if bool_decide (targets = []) then ret tt
      else
        ctx ← gets _context;
        call_action k action_name (_replace ctx targets action_args cursor))
      (imap pair defxs).

(** [View(vim, paths, context)]. *)
Definition View_init (vim : Nvim) (paths : list string) (context : Context)
  : result unit * View :=
  (init_buffer;;
   modify (set_columns (λ _, init_columns 1 [Mark; Filename]));;
   init_syntax;;
   redraw true;;
   if bool_decide (search context ≠ EmptyString) then
     defxs ← gets _defxs;
     for_each (λ defx, search_file (PyStr (search context)) (PyInt (_index defx))) defxs
   else ret tt)
  {| _vim := vim; _candidates := []; _selected_candidates := [];
     _context := context;
     _defxs := imap (λ index path, Defx_new path (Z.of_nat index)) paths;
     _columns := []; dispatched := [] |}.

End View.

(** ** A small concrete instance

    Two directories, [/a] with entries [/a/1] and [/a/2] and [/b] with the
    entry [/b/1]; a session accepts only these two as roots.  Used to run
    the View on concrete inputs. *)

Definition demo_children (cwd : string) : list string :=
  if bool_decide (cwd = "/a") then ["/a/1"; "/a/2"]
  else if bool_decide (cwd = "/b") then ["/b/1"]
  else [].

Definition demo_candidate (path : string) : Candidate :=
  {[ "action__path" := PyStr path ]}.

Definition demo_sessions : TreeSession :=
  {| get_root_candidate d := demo_candidate (_cwd d);
     gather_candidates d := demo_candidate <$> demo_children (_cwd d);
     cd_accepted d path := bool_decide (path = "/a" ∨ path = "/b") |}.

Definition demo_columns : Columns :=
  {| Mark := {| col_name := "mark"; col_length := 2; col_start := 0;
                col_end := 0; col_syntax_name := EmptyString |};
     Filename := {| col_name := "filename"; col_length := 100; col_start := 0;
                    col_end := 0; col_syntax_name := EmptyString |};
     column_get column context candidate :=
       if bool_decide (col_name column = "mark") then
         if bool_decide (candidate !! "is_selected" = Some (PyBool true))
         then "* " else "  "
       else match candidate !! "action__path" with
            | Some (PyStr p) => p
            | _ => EmptyString
            end;
     column_highlight column :=
       vim_command ("highlight default link " +:+ col_syntax_name column +:+ " Statement") |}.

Definition demo_host : Host :=
  {| cursor_after_replace l lines := Pos.min l (Pos.of_nat (length lines)) |}.

Definition demo_actions : ActionDispatcher :=
  {| action_do_action _ _ _ := ret tt |}.

(** An action module whose action fails, as the [cd] action does when the
    session rejects the path. *)
Definition rejecting_actions : ActionDispatcher :=
  {| action_do_action _ _ _ := raise CdRejected |}.

(** An action module whose action clears the selection, as the actions
    that end with a forced redraw do. *)
Definition clearing_actions : ActionDispatcher :=
  {| action_do_action _ _ _ := modify (set_selected_candidates (λ _, [])) |}.

Definition demo_vim : Nvim :=
  {| buffer_options := ∅; window_options := ∅; buffer := [EmptyString];
     line := 1%positive; commands := [] |}.

Definition demo_context : Context :=
  {| search := EmptyString; targets := []; args := []; cursor := 0 |}.

(** The View over [/a] and [/b], as constructed. *)
Definition demo_view : View :=
  snd (@View_init demo_sessions demo_columns demo_host demo_vim ["/a"; "/b"] demo_context).


(** The View with the candidates at positions 1 and -1 selected. *)
Definition demo_selected : View :=
  set_selected_candidates (λ _, [1; -1]) demo_view.

(** The View with a selection left over from a longer sequence. *)
Definition demo_stale : View :=
  set_selected_candidates (λ _, [7]) demo_view.


(** ** The words of the specification *)

(** "Emit that session's root candidate first, then its flattened
    descendant candidates; tag every emitted candidate with the owning
    session's index", concatenated over the sessions in order. *)
Definition aggregated_sequence `{TreeSession} (defxs : list Defx) : list Candidate :=
  defx ← defxs; tag defx <$> (get_root_candidate defx :: gather_candidates defx).

(** "A candidate whose path equals the query and whose owner matches." *)
Definition candidate_matches (path index : pyval) (c : Candidate) : bool :=
  match c !! "_defx_index", c !! "action__path" with
  | Some i, Some p => py_eq i index && py_eq p path
  | _, _ => false
  end.

(** The positions a selection denotes in a sequence of [n] candidates. *)
Definition selected_positions (n : nat) (selected : list Z) : list nat :=
  omap (py_position n) selected.

(** The candidates at the positions [ks] marked as selected. *)
Definition mark_positions (ks : list nat) (cs : list Candidate) : list Candidate :=
  foldl (λ cs k, alter (<["is_selected" := PyBool true]>) k cs) cs ks.

(** A selection position is in range when Python's indexing accepts it. *)
Definition in_range (n : nat) (index : Z) : Prop :=
  - Z.of_nat n <= index < Z.of_nat n.

(** The two statements of [get_selected_candidates]: the candidates under
    consideration, and their restriction to one session. *)
Definition cursor_or_selected (cur : Z) : M (list Candidate) :=
  selected ← gets _selected_candidates;
  if bool_decide (selected = []) then
    c ← get_cursor_candidate cur; ret [c]
  else
    comprehension (λ x,
      cs ← gets _candidates;
      match py_getitem cs x with
      | Some c => ret c
      | None => raise IndexError
      end) selected.

Definition of_session (index : Z) (candidates : list Candidate) : M (list Candidate) :=
  comprehension_if (λ x,
    i ← subscript x "_defx_index"; ret (py_eq i (PyInt index))) candidates.

(** Two Views with the same aggregated sequence and the same selection. *)
Definition agree (v w : View) : Prop :=
  _candidates v = _candidates w ∧ _selected_candidates v = _selected_candidates w.

(** A method that changes nothing and whose outcome depends only on the
    aggregated sequence and the selection. *)
Definition reads {A : Type} (m : M A) : Prop :=
  (∀ v, snd (m v) = v) ∧ (∀ v w, agree v w → fst (m v) = fst (m w)).

(** What a call made by [do_action(action_name, action_args, {cursor})]
    looks like: it carries the name, the arguments and the cursor line, and
    a target set that is not empty. *)
Definition well_formed_call (action_name : string) (action_args : list string)
    (cur : Z) (c : ActionCall) : Prop :=
  call_name c = action_name ∧
  args (call_context c) = action_args ∧
  cursor (call_context c) = cur ∧
  targets (call_context c) ≠ [].

(** The body of the loop of [do_action] over the sessions. *)
Abbreviation session_step action_name action_args cur :=
  (λ '(k, defx),
    targets ← get_selected_candidates cur (_index defx);
    if bool_decide (targets = []) then ret tt
    else
      ctx ← gets _context;
      call_action k action_name (_replace ctx targets action_args cur)).

(** Whether [selectedFor(cursor, index)] yields at least one target. *)
Definition has_targets (cursor index : Z) (v : View) : bool :=
  match fst (get_selected_candidates cursor index v) with
  | Ok (_ :: _) => true
  | _ => false
  end.

(** The dispatch of the specification, on a View without ghost log: the
    sessions are visited in order; the targets of a session are computed
    when its turn comes, on the View as the earlier actions left it; a
    session without targets is skipped, for a session with targets the
    action module runs once; the first exception, from computing targets
    or from an action, ends the dispatch.  The result is the outcome, the
    View left behind and the sessions for which the action module ran. *)
Fixpoint dispatch `{ActionDispatcher} (action_name : string)
    (action_args : list string) (cur : Z) (sessions : list (nat * Defx))
    (v : View) : result unit * View * list nat :=
  match sessions with
  | [] => (Ok tt, v, [])
  | (k, defx) :: rest =>
      match fst (get_selected_candidates cur (_index defx) v) with
      | Raise e => (Raise e, v, [])
      | Ok ts =>
          if bool_decide (ts = []) then
            dispatch action_name action_args cur rest v
          else
            match action_do_action k action_name
                    (_replace (_context v) ts action_args cur) v with
            | (Ok _, v') =>
                let '(r, v'', ks) :=
                  dispatch action_name action_args cur rest (hide_log v') in
                (r, v'', k :: ks)
            | (Raise e, v') => (Raise e, hide_log v', [k])
            end
      end
  end.

(** An action module that returns normally and leaves the aggregated
    sequence and the selection as they are. *)
Definition quiet_actions `{ActionDispatcher} : Prop :=
  ∀ k action_name context v,
    ∃ v', action_do_action k action_name context v = (Ok tt, v') ∧
          _candidates v' = _candidates v ∧
          _selected_candidates v' = _selected_candidates v.

(** A candidate that carries the two keys the View subscripts. *)
Definition keyed (c : Candidate) : Prop :=
  is_Some (c !! "_defx_index") ∧ is_Some (c !! "action__path").

(** [x['_defx_index'] == index], for a candidate that has the key. *)
Definition owned_by (index : Z) (c : Candidate) : bool :=
  match c !! "_defx_index" with
  | Some i => py_eq i (PyInt index)
  | None => false
  end.

(** The text of one line: the columns' texts for the candidate, in column
    order. *)
Definition line_text `{Columns} (cols : list Column) (context : Context)
    (c : Candidate) : string :=
  foldl (λ text column, text +:+ column_get column context c) EmptyString cols.

(** The three stages of [redraw] once it has passed its guard and read the
    candidate under the cursor: the rebuild of a forced redraw, the
    replacement of the buffer's lines, the relocation of the cursor. *)
Definition rebuilt `{TreeSession} (is_force : bool) (v : View) : View :=
  if is_force then
    set_candidates (λ _, aggregated_sequence (_defxs v))
      (set_selected_candidates (λ _, []) v)
  else v.

Definition displayed `{Columns} `{Host} (v : View) : View :=
  set_vim (λ n,
    set_buffer_options (<["modified" := PyBool false]>)
      (set_buffer_options (<["modifiable" := PyBool false]>)
         (replace_lines (line_text (_columns v) (_context v) <$> _candidates v)
            (set_buffer_options (<["modifiable" := PyBool true]>) n)))) v.

Definition relocate (prev : Candidate) : M unit :=
  if bool_decide (prev ≠ ∅) then
    p ← subscript prev "action__path";
    i ← subscript prev "_defx_index";
    search_file p i
  else ret tt.

(** Whether the current buffer is the defx buffer, as [redraw] tests it. *)
Definition on_defx_buffer (v : View) : bool :=
  py_eq (default (PyStr EmptyString) (buffer_options (_vim v) !! "filetype"))
        (PyStr "defx").

(** The View after going from /a to /b in session 0 with the cursor on
    /a/2. *)
Definition demo_moved : View :=
  snd (@cd demo_sessions demo_columns demo_host 0 "/b" 3 demo_view).

(** A method leaves the component [f] of the View as it was, whether it
    returns or raises. *)
Definition preserves {X A : Type} (f : View → X) (m : M A) : Prop :=
  ∀ v, f (snd (m v)) = f v.

(** ** Running a method *)

Lemma bind_Ok {A B : Type} (m : M A) (k : A → M B) v a v1 :
  m v = (Ok a, v1) → (m ≫= k) v = k a v1.
Proof. intros E. unfold mbind, M_bind. by rewrite E. Qed.

Lemma bind_Raise {A B : Type} (m : M A) (k : A → M B) v e v1 :
  m v = (Raise e, v1) → (m ≫= k) v = (Raise e, v1).
Proof. intros E. unfold mbind, M_bind. by rewrite E. Qed.


Lemma preserves_ret {X A : Type} (f : View → X) (a : A) : preserves f (ret a).
Proof. by intros v. Qed.

Lemma preserves_raise {X A : Type} (f : View → X) e : preserves f (@raise A e).
Proof. by intros v. Qed.

Lemma preserves_gets {X A : Type} (f : View → X) (g : View → A) : preserves f (gets g).
Proof. by intros v. Qed.

Lemma preserves_modify {X : Type} (f : View → X) (g : View → View) :
  (∀ v, f (g v) = f v) → preserves f (modify g).
Proof. intros Hg v. apply Hg. Qed.

Lemma preserves_bind {X A B : Type} (f : View → X) (m : M A) (k : A → M B) :
  preserves f m → (∀ a, preserves f (k a)) → preserves f (m ≫= k).
Proof.
  intros Hm Hk v. specialize (Hm v). unfold mbind, M_bind.
  destruct (m v) as [[a|e] v1]; simpl in *; [|done].
  by rewrite Hk.
Qed.

Lemma preserves_for_each {X A : Type} (f : View → X) (body : A → M unit) l :
  (∀ x, preserves f (body x)) → preserves f (for_each body l).
Proof.
  intros Hb. induction l as [|x l IH]; simpl.
  - apply preserves_ret.
  - apply preserves_bind; auto.
Qed.

Lemma preserves_comprehension {X A B : Type} (f : View → X) (g : A → M B) l :
  (∀ x, preserves f (g x)) → preserves f (comprehension g l).
Proof.
  intros Hg. induction l as [|x l IH]; simpl.
  - apply preserves_ret.
  - apply preserves_bind; [auto|]. intros y.
    apply preserves_bind; [auto|]. intros ys. apply preserves_ret.
Qed.

Lemma preserves_comprehension_if {X A : Type} (f : View → X) (p : A → M bool) l :
  (∀ x, preserves f (p x)) → preserves f (comprehension_if p l).
Proof.
  intros Hp. induction l as [|x l IH]; simpl.
  - apply preserves_ret.
  - apply preserves_bind; [auto|]. intros b.
    apply preserves_bind; [auto|]. intros ys. apply preserves_ret.
Qed.

Lemma preserves_subscript {X : Type} (f : View → X) d key : preserves f (subscript d key).
Proof. unfold subscript. destruct (d !! key); [apply preserves_ret | apply preserves_raise]. Qed.

(** Frame conditions of straight-line methods are settled by following
    their structure. *)
Ltac frame :=
  repeat first
    [ progress intros
    | assumption
    | apply preserves_ret
    | apply preserves_raise
    | apply preserves_gets
    | apply preserves_subscript
    | apply preserves_modify; intros; reflexivity
    | apply preserves_for_each
    | apply preserves_comprehension
    | apply preserves_comprehension_if
    | apply preserves_bind
    | match goal with
      | |- preserves _ (if ?b then _ else _) => destruct b
      | |- preserves _ (match ?x with _ => _ end) => destruct x
      | |- preserves _ (let '(_, _) := ?x in _) => destruct x
      end ].

(** ** Python indexing *)

Lemma py_position_lt n i k : py_position n i = Some k → (k < n)%nat.
Proof.
  unfold py_position. repeat case_bool_decide; intros; simplify_eq; lia.
Qed.

Lemma py_position_in_range n i : is_Some (py_position n i) ↔ in_range n i.
Proof.
  unfold py_position, in_range.
  case_bool_decide as Hpos; [split; [lia | by eexists]|].
  case_bool_decide as Hneg; [split; [lia | by eexists]|].
  split; [by intros [k ?] | lia].
Qed.

Lemma py_getitem_nonneg {A : Type} (l : list A) (i : Z) :
  0 <= i < Z.of_nat (length l) → py_getitem l i = l !! Z.to_nat i.
Proof.
  intros Hi. unfold py_getitem, py_position.
  by rewrite bool_decide_eq_true_2.
Qed.

Lemma py_getitem_minus_one {A : Type} (l : list A) :
  l ≠ [] → py_getitem l (-1) = last l.
Proof.
  intros Hl. unfold py_getitem, py_position.
  assert (0 < length l)%nat by (destruct l; [done | simpl; lia]).
  rewrite bool_decide_eq_false_2 by lia.
  rewrite bool_decide_eq_true_2 by lia. simpl.
  rewrite last_lookup. f_equal. lia.
Qed.

(** ** Column spans *)

Lemma init_columns_length start columns :
  length (init_columns start columns) = length columns.
Proof.
  revert start. induction columns as [|w ws IH]; intros start; simpl; [done|].
  by rewrite IH.
Qed.

(** The span of the [i]-th column starts after the widths of the columns
    before it. *)
Lemma init_columns_lookup start columns i c :
  init_columns start columns !! i = Some c →
  ∃ w, columns !! i = Some w ∧
       col_length c = col_length w ∧
       col_start c = start + foldr Z.add 0 (col_length <$> take i columns) ∧
       col_end c = col_start c + col_length w - 1.
Proof.
  revert start i. induction columns as [|w ws IH]; intros start i; simpl; [done|].
  destruct i as [|i]; simpl.
  - intros [= <-]. exists w. simpl. repeat split; lia.
  - intros Hc. destruct (IH _ _ Hc) as (w' & Hw' & Hl & Hs & He).
    exists w'. split_and!; [done | done | | done].
    rewrite Hs. cbn. symmetry. apply Z.add_assoc.
Qed.

Lemma take_S_sum (ws : list Z) i w :
  ws !! i = Some w →
  foldr Z.add 0 (take (S i) ws) = foldr Z.add 0 (take i ws) + w.
Proof.
  revert i. induction ws as [|x xs IH]; intros i; [done|].
  destruct i as [|i]; simpl.
  - intros [= ->]. lia.
  - intros Hw. specialize (IH _ Hw). cbn in *. lia.
Qed.

Section Properties.
Context {sessions : TreeSession} {columns : Columns}
        {host : Host} {actions : ActionDispatcher}.

(** *** Frame conditions *)

Lemma init_buffer_returns v : ∃ v', init_buffer v = (Ok tt, v').
Proof. eexists. reflexivity. Qed.

Lemma search_file_preserves_columns path index :
  preserves _columns (search_file path index).
Proof.
  unfold search_file, vim_cursor. frame.
Qed.

Lemma init_candidates_preserves_columns : preserves _columns init_candidates.
Proof. unfold init_candidates, mark_selected. frame. Qed.

Lemma get_cursor_candidate_preserves {X : Type} (f : View → X) cursor :
  preserves f (get_cursor_candidate cursor).
Proof. unfold get_cursor_candidate. frame. Qed.

Lemma redraw_preserves_columns is_force : preserves _columns (redraw is_force).
Proof.
  unfold redraw, get_columns_text.
  pose proof search_file_preserves_columns.
  pose proof init_candidates_preserves_columns.
  pose proof (get_cursor_candidate_preserves _columns).
  frame.
Qed.

Lemma init_syntax_preserves_columns : preserves _columns init_syntax.
Proof. unfold init_syntax. frame. Qed.

Lemma View_init_columns vim paths context :
  _columns (snd (View_init vim paths context)) = init_columns 1 [Mark; Filename].
Proof.
  unfold View_init.
  match goal with |- context [ (init_buffer ≫= ?k) ?v0 ] =>
    destruct (init_buffer_returns v0) as [v1 E]; rewrite (bind_Ok _ k _ _ _ E)
  end.
  match goal with |- context [ (modify ?g ≫= ?k) v1 ] =>
    rewrite (bind_Ok (modify g) k v1 tt (g v1) eq_refl);
    assert (preserves _columns (k tt)) as Hk
  end.
  { pose proof search_file_preserves_columns.
    pose proof init_syntax_preserves_columns.
    pose proof redraw_preserves_columns.
    frame. }
  by rewrite Hk.
Qed.

Lemma View_init_defxs vim paths context :
  _defxs (snd (View_init vim paths context)) =
  imap (λ index path, Defx_new path (Z.of_nat index)) paths.
Proof.
  unfold View_init.
  match goal with |- _defxs (snd (?m ?v0)) = _ =>
    assert (preserves _defxs m) as Hm
  end.
  { unfold init_buffer, init_syntax, redraw, init_candidates, mark_selected,
      get_columns_text, get_cursor_candidate, search_file, vim_cursor.
    frame. }
  by rewrite Hm.
Qed.

(** C8 — The spans computed by [View.__init__] are contiguous and do not
    overlap: the first column starts at offset 1, each column ends at its
    start plus its declared width minus 1, and each later column starts
    right after the end of the one before it; three columns of widths
    [w0], [w1], [w2] get the spans [1, w0], [w0+1, w0+w1] and
    [w0+w1+1, w0+w1+w2].  The View's columns are the two column objects
    with the spans so computed. *)
Theorem C8_column_spans_contiguous (cols : list Column) :
  let spans := init_columns 1 cols in
  length spans = length cols ∧
  (∀ c, spans !! 0%nat = Some c → col_start c = 1) ∧
  (∀ i c, spans !! i = Some c →
     ∃ w, cols !! i = Some w ∧ col_end c = col_start c + col_length w - 1) ∧
  (∀ i c c', spans !! i = Some c → spans !! S i = Some c' →
     col_start c' = col_end c + 1) ∧
  (∀ w0 w1 w2, col_length <$> cols = [w0; w1; w2] →
     (λ c, (col_start c, col_end c)) <$> spans =
     [(1, w0); (w0 + 1, w0 + w1); (w0 + w1 + 1, w0 + w1 + w2)]) ∧
  (∀ vim paths context,
     _columns (snd (View_init vim paths context)) = init_columns 1 [Mark; Filename]).
Proof.
  intros spans. subst spans. split_and!.
  - apply init_columns_length.
  - intros c Hc. apply init_columns_lookup in Hc as (w & _ & _ & Hs & _).
    rewrite take_0 in Hs. simpl in Hs. lia.
  - intros i c Hc. apply init_columns_lookup in Hc as (w & Hw & _ & _ & He). eauto.
  - intros i c c' Hc Hc'.
    apply init_columns_lookup in Hc as (w & Hw & _ & Hs & He).
    apply init_columns_lookup in Hc' as (w' & Hw' & _ & Hs' & _).
    rewrite Hs', He, Hs, !fmap_take.
    rewrite (take_S_sum _ i (col_length w)); [lia|].
    by rewrite list_lookup_fmap, Hw.
  - intros w0 w1 w2 Hw.
    destruct cols as [|c0 [|c1 [|c2 [|? ?]]]]; simplify_eq/=.
    repeat (f_equal; try lia).
  - apply View_init_columns.
Qed.

(** *** The cursor and the scan *)

Lemma get_cursor_candidate_at (v : View) (l : positive) k c :
  Pos.to_nat l = S k → _candidates v !! k = Some c →
  get_cursor_candidate (Z.pos l) v = (Ok c, v).
Proof.
  intros Hl Hc. pose proof (lookup_lt_Some _ _ _ Hc) as Hlt.
  unfold get_cursor_candidate, mbind, M_bind, gets. simpl.
  rewrite bool_decide_eq_false_2 by lia.
  rewrite py_getitem_nonneg by lia.
  replace (Z.to_nat (Z.pos l - 1)) with k by lia.
  by rewrite Hc.
Qed.

Lemma get_cursor_candidate_at_inv (v : View) (l : positive) c :
  (Pos.to_nat l ≤ length (_candidates v))%nat →
  get_cursor_candidate (Z.pos l) v = (Ok c, v) →
  _candidates v !! (Pos.to_nat l - 1)%nat = Some c.
Proof.
  intros Hl.
  destruct (lookup_lt_is_Some_2 (_candidates v) (Pos.to_nat l - 1)) as [c' Hc']; [lia|].
  assert (Pos.to_nat l = S (Pos.to_nat l - 1)) as Hk by lia.
  rewrite (get_cursor_candidate_at v l _ c' Hk Hc'). by intros [= <-].
Qed.

Lemma search_file_scan_found cs path index n l :
  search_file_scan cs path index n = Ok (Some l) →
  ∃ k c, Pos.to_nat l = (Pos.to_nat n + k)%nat ∧
         cs !! k = Some c ∧
         candidate_matches path index c = true ∧
         ∀ j c', (j < k)%nat → cs !! j = Some c' →
                 candidate_matches path index c' = false.
Proof.
  revert n. induction cs as [|c cs IH]; intros n; simpl; [done|].
  unfold candidate_matches at 2.
  destruct (c !! "_defx_index") as [i|] eqn:Ei; [|done].
  assert (search_file_scan cs path index (Pos.succ n) = Ok (Some l) →
               candidate_matches path index c = false →
               ∃ k c0, Pos.to_nat l = (Pos.to_nat n + k)%nat ∧
                 (c :: cs) !! k = Some c0 ∧ candidate_matches path index c0 = true ∧
                 ∀ j c', (j < k)%nat → (c :: cs) !! j = Some c' →
                         candidate_matches path index c' = false) as Hrest.
  { intros Hr Hno. destruct (IH _ Hr) as (k & c0 & Hl & Hc0 & Hm & Hfirst).
    exists (S k), c0. split_and!; [lia | done | done |].
    intros [|j] c' Hj; simpl; [by intros [= <-] | intros Hc'].
    apply (Hfirst j); [lia | done]. }
  destruct (py_eq i index) eqn:Ei'.
  - destruct (c !! "action__path") as [p|] eqn:Ep; [|done].
    destruct (py_eq p path) eqn:Ep'.
    + intros [= <-]. exists 0%nat, c. split_and!; [lia | done | |].
      * unfold candidate_matches. by rewrite Ei, Ep, Ei', Ep'.
      * intros j c' Hj. lia.
    + intros Hr. apply (Hrest Hr).
      unfold candidate_matches. by rewrite Ei, Ep, Ei', Ep'.
  - intros Hr. apply (Hrest Hr).
    unfold candidate_matches. rewrite Ei, Ei'. by destruct (c !! "action__path").
Qed.

Lemma search_file_scan_no_match cs path index n :
  (∀ c, c ∈ cs → candidate_matches path index c = false) →
  search_file_scan cs path index n = Ok None ∨
  ∃ key, search_file_scan cs path index n = Raise (KeyError key).
Proof.
  revert n. induction cs as [|c cs IH]; intros n Hno; simpl; [by left|].
  assert (candidate_matches path index c = false) as Hc by (apply Hno; left).
  assert (∀ c', c' ∈ cs → candidate_matches path index c' = false) as Hcs
    by (intros c' Hc'; apply Hno; by right).
  unfold candidate_matches in Hc.
  destruct (c !! "_defx_index") as [i|]; [|right; eauto].
  destruct (py_eq i index); [|by apply IH].
  destruct (c !! "action__path") as [p|]; [|right; eauto].
  destruct (py_eq p path); [done | by apply IH].
Qed.

(** C9 — On a non-empty aggregated sequence [get_cursor_candidate(0)]
    does not take the out-of-range branch: the length test only rejects
    lines beyond the length, and index [0 - 1 = -1] selects the last
    candidate, which is what is returned. *)
Theorem C9_cursor_zero_returns_last (v : View) :
  _candidates v ≠ [] →
  ∃ c, last (_candidates v) = Some c ∧ get_cursor_candidate 0 v = (Ok c, v).
Proof.
  intros Hne.
  destruct (last (_candidates v)) as [c|] eqn:Hlast;
    [|by apply last_None in Hlast].
  exists c. split; [done|].
  unfold get_cursor_candidate, mbind, M_bind, gets. simpl.
  rewrite bool_decide_eq_false_2 by lia.
  change (0 - 1) with (-1). by rewrite py_getitem_minus_one, Hlast.
Qed.

(** C6 — Whenever the scan of [search_file] finds a line, the cursor is
    moved there, [get_cursor_candidate] at that line yields a candidate
    whose path equals the query and whose session index equals the
    queried one, and no candidate on a lower line matches (the scan is
    linear, so ties resolve to the lowest line). *)
Theorem C6_locate_then_candidate_at (v : View) (path index : pyval) (l : positive) :
  search_file_scan (_candidates v) path index 1 = Ok (Some l) →
  let v' := snd (search_file path index v) in
  search_file path index v = (Ok tt, set_vim (set_line l) v) ∧
  line (_vim v') = l ∧
  (∃ c p i, get_cursor_candidate (Z.pos l) v' = (Ok c, v') ∧
     c !! "action__path" = Some p ∧ py_eq p path = true ∧
     c !! "_defx_index" = Some i ∧ py_eq i index = true) ∧
  (∀ l' c', (l' < l)%positive →
     get_cursor_candidate (Z.pos l') v' = (Ok c', v') →
     candidate_matches path index c' = false).
Proof.
  intros Hscan v'.
  assert (search_file path index v = (Ok tt, set_vim (set_line l) v)) as Hsf.
  { unfold search_file, mbind, M_bind, gets. simpl. by rewrite Hscan. }
  subst v'. rewrite Hsf. simpl.
  destruct (search_file_scan_found _ _ _ _ _ Hscan) as (k & c & Hl & Hc & Hm & Hfirst).
  split_and!; [done | done | |].
  - unfold candidate_matches in Hm.
    destruct (c !! "_defx_index") as [i|] eqn:Ei; [|done].
    destruct (c !! "action__path") as [p|] eqn:Ep; [|done].
    apply andb_true_iff in Hm as [Hi Hp].
    exists c, p, i. split_and!; try done.
    apply (get_cursor_candidate_at _ _ k); [lia | done].
  - intros l' c' Hl' Hc'.
    pose proof (lookup_lt_Some _ _ _ Hc) as Hk.
    apply get_cursor_candidate_at_inv in Hc'; [|simpl; lia].
    apply (Hfirst (Pos.to_nat l' - 1)%nat); [lia | done].
Qed.

(** C10 — When no candidate of the aggregated sequence matches the path
    and the session index, [search_file] does not touch the editor: the
    View, and with it the cursor line, is exactly what it was before the
    call. *)
Theorem C10_locate_no_match_no_move (v : View) (path index : pyval) :
  (∀ c, c ∈ _candidates v → candidate_matches path index c = false) →
  snd (search_file path index v) = v ∧
  line (_vim (snd (search_file path index v))) = line (_vim v).
Proof.
  intros Hno.
  assert (snd (search_file path index v) = v) as Hv; [|by rewrite Hv].
  unfold search_file, mbind, M_bind, gets. simpl.
  destruct (search_file_scan_no_match _ path index 1%positive Hno) as [E|[key E]];
    by rewrite E.
Qed.

(** *** Rebuilding the aggregated sequence *)

Lemma gather_loop (defxs : list Defx) (v : View) :
  for_each (λ defx,
    let candidates := [get_root_candidate defx] ++ gather_candidates defx in
    let candidates := tag defx <$> candidates in
    modify (set_candidates (λ cs, cs ++ candidates))) defxs v
  = (Ok tt, set_candidates (λ cs, cs ++ aggregated_sequence defxs) v).
Proof.
  revert v. induction defxs as [|d ds IH]; intros v.
  - simpl. unfold ret, mret, M_ret, set_candidates. simpl.
    rewrite app_nil_r. by destruct v.
  - cbn [for_each]. erewrite bind_Ok by reflexivity. rewrite IH.
    unfold set_candidates. simpl. by rewrite <- app_assoc.
Qed.

Lemma init_candidates_run (v : View) :
  init_candidates v =
  for_each mark_selected (_selected_candidates v)
    (set_candidates (λ _, aggregated_sequence (_defxs v)) v).
Proof.
  unfold init_candidates.
  erewrite bind_Ok by reflexivity.
  erewrite bind_Ok by reflexivity.
  erewrite bind_Ok by apply gather_loop.
  erewrite bind_Ok by reflexivity.
  reflexivity.
Qed.

(** In a forced redraw the selection is cleared first, and the rebuild
    yields the sequence of the specification. *)
Lemma forced_rebuild (v : View) :
  (modify (set_selected_candidates (λ _, []));; init_candidates) v =
  (Ok tt, set_candidates (λ _, aggregated_sequence (_defxs v))
            (set_selected_candidates (λ _, []) v)).
Proof.
  erewrite bind_Ok by reflexivity. by rewrite init_candidates_run.
Qed.

Lemma mark_positions_length ks cs : length (mark_positions ks cs) = length cs.
Proof.
  revert cs. induction ks as [|k ks IH]; intros cs; simpl; [done|].
  unfold mark_positions in *. simpl. by rewrite IH, length_alter.
Qed.

Lemma mark_positions_lookup ks cs k :
  mark_positions ks cs !! k =
  (if bool_decide (k ∈ ks) then <["is_selected" := PyBool true]> else id) <$> cs !! k.
Proof.
  revert cs. induction ks as [|k0 ks IH]; intros cs.
  - rewrite bool_decide_eq_false_2 by apply not_elem_of_nil.
    simpl. by destruct (cs !! k).
  - change (mark_positions (k0 :: ks) cs)
      with (mark_positions ks (alter (<["is_selected" := PyBool true]>) k0 cs)).
    rewrite IH. destruct (decide (k = k0)) as [->|Hne].
    + rewrite list_lookup_alter.
      destruct (decide (k0 = k0)) as [_|]; [|done].
      rewrite (bool_decide_eq_true_2 (k0 ∈ k0 :: ks)) by (by left).
      destruct (cs !! k0) as [c|]; simpl; [|done].
      case_bool_decide; simpl; [|done]. by rewrite insert_insert_eq.
    + rewrite list_lookup_alter_ne by done.
      rewrite (bool_decide_ext (k ∈ k0 :: ks) (k ∈ ks)); [done|].
      rewrite elem_of_cons. split; [by intros [?|?] | by right].
Qed.

Lemma mark_loop_returns (selected : list Z) (v : View) :
  Forall (in_range (length (_candidates v))) selected →
  for_each mark_selected selected v =
  (Ok tt, set_candidates
            (mark_positions (selected_positions (length (_candidates v)) selected)) v).
Proof.
  revert v. induction selected as [|i sel IH]; intros v Hall.
  - by destruct v.
  - apply Forall_cons in Hall as [Hi Hsel].
    apply py_position_in_range in Hi as [k Hk].
    cbn [for_each].
    assert (mark_selected i v =
            (Ok tt, set_candidates (alter (<["is_selected" := PyBool true]>) k) v)) as E.
    { unfold mark_selected. erewrite bind_Ok by reflexivity. simpl. by rewrite Hk. }
    erewrite bind_Ok by apply E.
    rewrite IH by (simpl; by rewrite length_alter).
    simpl. rewrite length_alter.
    unfold selected_positions. simpl. by rewrite Hk.
Qed.

Lemma mark_loop_raises (selected : list Z) (v : View) :
  ¬ Forall (in_range (length (_candidates v))) selected →
  ∃ v', for_each mark_selected selected v = (Raise IndexError, v').
Proof.
  revert v. induction selected as [|i sel IH]; intros v Hnot.
  - destruct Hnot. constructor.
  - cbn [for_each].
    destruct (py_position (length (_candidates v)) i) as [k|] eqn:Hk.
    + assert (mark_selected i v =
              (Ok tt, set_candidates (alter (<["is_selected" := PyBool true]>) k) v)) as E.
      { unfold mark_selected. erewrite bind_Ok by reflexivity. simpl. by rewrite Hk. }
      erewrite bind_Ok by apply E. apply IH. simpl. rewrite length_alter.
      intros Hsel. apply Hnot. constructor; [|done].
      apply py_position_in_range. eauto.
    + exists v. apply bind_Raise.
      unfold mark_selected. erewrite bind_Ok by reflexivity. simpl. by rewrite Hk.
Qed.

(** C1 — The rebuild projects the selection onto the fresh sequence by
    plain indexing, without a range check.  When every selection position
    is in range of the fresh sequence the rebuild returns and exactly the
    candidates at those positions are marked [is_selected = True]; when
    some position is out of range the rebuild raises [IndexError].  A
    forced redraw clears the selection before it rebuilds, so there the
    rebuild returns. *)
Theorem C1_selection_mask_projection (v : View) :
  let fresh := aggregated_sequence (_defxs v) in
  let selected := _selected_candidates v in
  (Forall (in_range (length fresh)) selected →
     ∃ marked,
       init_candidates v = (Ok tt, set_candidates (λ _, marked) v) ∧
       length marked = length fresh ∧
       ∀ k, marked !! k =
            (if bool_decide (k ∈ selected_positions (length fresh) selected)
             then <["is_selected" := PyBool true]> else id) <$> fresh !! k) ∧
  (¬ Forall (in_range (length fresh)) selected →
     ∃ v', init_candidates v = (Raise IndexError, v')) ∧
  (modify (set_selected_candidates (λ _, []));; init_candidates) v =
    (Ok tt, set_candidates (λ _, fresh) (set_selected_candidates (λ _, []) v)).
Proof.
  intros fresh selected. split_and!.
  - intros Hall.
    exists (mark_positions (selected_positions (length fresh) selected) fresh).
    split_and!.
    + rewrite init_candidates_run, mark_loop_returns by done. done.
    + apply mark_positions_length.
    + apply mark_positions_lookup.
  - intros Hnot. rewrite init_candidates_run. by apply mark_loop_raises.
  - apply forced_rebuild.
Qed.

(** *** Navigation *)

Lemma get_cursor_candidate_state (cur : Z) (v : View) :
  snd (get_cursor_candidate cur v) = v.
Proof. apply (get_cursor_candidate_preserves (λ v, v)). Qed.

Lemma get_cursor_candidate_beyond (cur : Z) (v : View) :
  Z.of_nat (length (_candidates v)) < cur →
  get_cursor_candidate cur v = (Ok ∅, v).
Proof.
  intros Hlt. unfold get_cursor_candidate.
  erewrite bind_Ok by reflexivity. simpl.
  by rewrite bool_decide_eq_true_2.
Qed.


Lemma the_defx_at (k : nat) (d : Defx) (v : View) :
  _defxs v !! k = Some d → the_defx k v = (Ok d, v).
Proof.
  intros Hk. unfold the_defx. erewrite bind_Ok by reflexivity. simpl.
  by rewrite Hk.
Qed.

(** C2 — When the cursor line exceeds the length of the aggregated
    sequence, [cd] subscripts the empty dict that stands for "no
    candidate": it raises [KeyError] before anything is recorded, the
    session keeps its root and nothing is redrawn. *)
Theorem C2_cd_beyond_sequence_raises (v : View) (k : nat) (d : Defx)
    (path : string) (cur : Z) :
  _defxs v !! k = Some d →
  Z.of_nat (length (_candidates v)) < cur →
  cd k path cur v = (Raise (KeyError "action__path"), v).
Proof.
  intros Hk Hlt. unfold cd.
  erewrite bind_Ok by (by apply the_defx_at).
  erewrite bind_Ok by (by apply get_cursor_candidate_beyond).
  by apply bind_Raise.
Qed.

(** C3 — When the session rejects the new root, [cd] raises to its
    caller with the selection, the aggregated sequence and the editor
    exactly as they were (nothing is redrawn); the history of the session
    has by then received the entry for the old root, which is written
    before the root change is attempted. *)
Theorem C3_rejected_cd_keeps_display (v : View) (k : nat) (d : Defx)
    (path : string) (cur : Z) (c : Candidate) (p : pyval) :
  _defxs v !! k = Some d →
  fst (get_cursor_candidate cur v) = Ok c →
  c !! "action__path" = Some p →
  cd_accepted (record_history d p) path = false →
  let v' := snd (cd k path cur v) in
  fst (cd k path cur v) = Raise CdRejected ∧
  _selected_candidates v' = _selected_candidates v ∧
  _candidates v' = _candidates v ∧
  _vim v' = _vim v ∧
  _defxs v' = <[k := record_history d p]> (_defxs v) ∧
  _cursor_history (record_history d p) = <[_cwd d := p]> (_cursor_history d).
Proof.
  intros Hk Hc Hp Hrej.
  assert (get_cursor_candidate cur v = (Ok c, v)) as Hc'.
  { pose proof (get_cursor_candidate_state cur v).
    destruct (get_cursor_candidate cur v); simpl in *; by subst. }
  assert (cd k path cur v =
          (Raise CdRejected, set_defxs (<[k := record_history d p]>) v)) as E.
  { unfold cd.
    erewrite bind_Ok by (by apply the_defx_at).
    erewrite bind_Ok by apply Hc'.
    erewrite bind_Ok by (unfold subscript; by rewrite Hp).
    cbv zeta. erewrite bind_Ok by reflexivity.
    apply bind_Raise. unfold Defx_cd.
    erewrite bind_Ok.
    2:{ apply the_defx_at. simpl. apply list_lookup_insert_eq.
        by eapply lookup_lt_Some. }
    simpl. by rewrite Hrej. }
  rewrite E. simpl. done.
Qed.

(** *** The selection after a redraw and after a navigation *)







(** *** Dispatch *)

Lemma reads_ret {A : Type} (a : A) : reads (ret a).
Proof. by split. Qed.

Lemma reads_raise {A : Type} e : reads (@raise A e).
Proof. by split. Qed.

Lemma reads_candidates : reads (gets _candidates).
Proof. split; [done|]. intros v w [Hc _]. simpl. by rewrite Hc. Qed.

Lemma reads_selected : reads (gets _selected_candidates).
Proof. split; [done|]. intros v w [_ Hs]. simpl. by rewrite Hs. Qed.

Lemma reads_subscript d key : reads (subscript d key).
Proof. unfold subscript. destruct (d !! key); [apply reads_ret | apply reads_raise]. Qed.

Lemma reads_bind {A B : Type} (m : M A) (k : A → M B) :
  reads m → (∀ a, reads (k a)) → reads (m ≫= k).
Proof.
  intros [Hm1 Hm2] Hk. split.
  - intros v. specialize (Hm1 v). unfold mbind, M_bind.
    destruct (m v) as [[a|e] v1]; simpl in *; subst; [apply Hk | done].
  - intros v w Hvw. pose proof (Hm1 v). pose proof (Hm1 w).
    specialize (Hm2 v w Hvw). unfold mbind, M_bind.
    destruct (m v) as [[a|e] v1], (m w) as [[a'|e'] w1]; simplify_eq/=; [|done].
    by apply Hk.
Qed.

Lemma reads_comprehension {A B : Type} (g : A → M B) l :
  (∀ x, reads (g x)) → reads (comprehension g l).
Proof.
  intros Hg. induction l as [|x l IH]; simpl; [apply reads_ret|].
  apply reads_bind; [done|]. intros y.
  apply reads_bind; [done|]. intros ys. apply reads_ret.
Qed.

Lemma reads_comprehension_if {A : Type} (p : A → M bool) l :
  (∀ x, reads (p x)) → reads (comprehension_if p l).
Proof.
  intros Hp. induction l as [|x l IH]; simpl; [apply reads_ret|].
  apply reads_bind; [done|]. intros b.
  apply reads_bind; [done|]. intros ys. apply reads_ret.
Qed.

Lemma reads_get_cursor_candidate cur : reads (get_cursor_candidate cur).
Proof.
  unfold get_cursor_candidate. apply reads_bind; [apply reads_candidates|].
  intros cs. case_bool_decide; [apply reads_ret|].
  destruct (py_getitem cs (cur - 1)); [apply reads_ret | apply reads_raise].
Qed.

Lemma get_selected_candidates_eq cur index v :
  get_selected_candidates cur index v =
  (cursor_or_selected cur ≫= of_session index) v.
Proof. reflexivity. Qed.

Lemma reads_cursor_or_selected cur : reads (cursor_or_selected cur).
Proof.
  unfold cursor_or_selected.
  apply reads_bind; [apply reads_selected|]. intros selected.
  case_bool_decide.
  - apply reads_bind; [apply reads_get_cursor_candidate|].
    intros c. apply reads_ret.
  - apply reads_comprehension. intros x.
    apply reads_bind; [apply reads_candidates|]. intros cs.
    destruct (py_getitem cs x); [apply reads_ret | apply reads_raise].
Qed.

Lemma reads_of_session index candidates : reads (of_session index candidates).
Proof.
  apply reads_comprehension_if. intros x.
  apply reads_bind; [apply reads_subscript|]. intros i. apply reads_ret.
Qed.

Lemma reads_get_selected_candidates cur index :
  reads (get_selected_candidates cur index).
Proof.
  assert (reads (cursor_or_selected cur ≫= of_session index)) as [H1 H2].
  { apply reads_bind; [apply reads_cursor_or_selected|].
    intros candidates. apply reads_of_session. }
  split; intros; rewrite !get_selected_candidates_eq; auto.
Qed.

(** Whether the restriction to a session raises does not depend on the
    session. *)
Lemma of_session_raises (candidates : list Candidate) (i j : Z) (v : View) e :
  fst (of_session i candidates v) = Raise e →
  fst (of_session j candidates v) = Raise e.
Proof.
  unfold of_session.
  revert e. induction candidates as [|x xs IH]; intros e; simpl; [done|].
  unfold mbind, M_bind, subscript in *.
  destruct (x !! "_defx_index") as [y|]; simpl; [|done].
  destruct (comprehension_if _ xs v) as [[ys|e1] v1] eqn:E1; simpl in *.
  - done.
  - intros [= ->].
    destruct (comprehension_if _ xs v) as [[ys|e2] v2] eqn:E2; simpl in *.
    + by specialize (IH e eq_refl).
    + specialize (IH e eq_refl). by simplify_eq.
Qed.

Lemma get_selected_candidates_raises (cur i j : Z) (v : View) e :
  fst (get_selected_candidates cur i v) = Raise e →
  fst (get_selected_candidates cur j v) = Raise e.
Proof.
  rewrite !get_selected_candidates_eq.
  destruct (reads_cursor_or_selected cur) as [Hst _]. specialize (Hst v).
  destruct (cursor_or_selected cur v) as [[candidates|e1] v1] eqn:E;
    simpl in Hst; subst v1.
  - rewrite !(bind_Ok _ _ _ _ _ E). apply of_session_raises.
  - by rewrite !(bind_Raise _ _ _ _ _ E).
Qed.

Lemma imap_pair_fst {A : Type} (l : list A) :
  fst <$> imap pair l = seq 0 (length l).
Proof.
  assert (∀ n, fst <$> imap (λ i x, (n + i, x)%nat) l = seq n (length l)) as H.
  { induction l as [|x l IH]; intros n; [done|].
    simpl. f_equal; [lia|]. rewrite <- (IH (S n)).
    f_equal. apply imap_ext. intros i y _. simpl. f_equal. lia. }
  apply (H 0%nat).
Qed.

Lemma call_action_log k action_name context (v : View) :
  dispatched (snd (call_action k action_name context v)) =
  dispatched v ++ [{| call_defx := k; call_name := action_name;
                      call_context := context |}].
Proof.
  unfold call_action.
  by destruct (action_do_action k action_name context (hide_log v)).
Qed.

Lemma get_selected_candidates_run cur index (v : View) :
  get_selected_candidates cur index v =
  (fst (get_selected_candidates cur index v), v).
Proof.
  destruct (reads_get_selected_candidates cur index) as [Hst _].
  specialize (Hst v). by destruct (get_selected_candidates cur index v); simplify_eq/=.
Qed.

(** The targets do not depend on the ghost log. *)
Lemma get_selected_candidates_hidden cur index (v : View) :
  fst (get_selected_candidates cur index (hide_log v))
  = fst (get_selected_candidates cur index v).
Proof.
  destruct (reads_get_selected_candidates cur index) as [_ Hfst].
  by apply Hfst.
Qed.

(** Whatever the action module does: the calls are made in the order of
    the sessions, at most one per session, each with targets. *)
Lemma dispatch_loop_calls action_name action_args cur (kds : list (nat * Defx)) (w : View) :
  ∃ calls,
    dispatched (snd (for_each (session_step action_name action_args cur) kds w))
      = dispatched w ++ calls ∧
    call_defx <$> calls `sublist_of` fst <$> kds ∧
    Forall (well_formed_call action_name action_args cur) calls.
Proof.
  revert w. induction kds as [|[k d] kds IH]; intros w.
  - exists []. simpl. rewrite app_nil_r. split_and!; [done | done | constructor].
  - cbn [for_each].
    destruct (fst (get_selected_candidates cur (_index d) w)) as [ts|e] eqn:Ets.
    + pose proof (get_selected_candidates_run cur (_index d) w) as Hrun.
      rewrite Ets in Hrun.
      destruct ts as [|t ts].
      * erewrite bind_Ok.
        2:{ erewrite bind_Ok by apply Hrun. reflexivity. }
        destruct (IH w) as (calls & Hlog & Hsub & Hall).
        exists calls. split_and!; [done | | done]. by apply sublist_cons.
      * set (context := _replace (_context w) (t :: ts) action_args cur).
        pose proof (call_action_log k action_name context w) as Hcall.
        destruct (call_action k action_name context w) as [[[]|e] w1] eqn:Eact;
          simpl in Hcall.
        -- erewrite bind_Ok.
           2:{ erewrite bind_Ok by apply Hrun.
               rewrite bool_decide_eq_false_2 by done.
               erewrite bind_Ok by reflexivity. apply Eact. }
           destruct (IH w1) as (calls & Hlog & Hsub & Hall).
           exists ({| call_defx := k; call_name := action_name;
                      call_context := context |} :: calls).
           split_and!.
           ++ rewrite Hlog, Hcall. by rewrite <- app_assoc.
           ++ simpl. by apply sublist_skip.
           ++ constructor; [|done]. by repeat split.
        -- erewrite bind_Raise.
           2:{ erewrite bind_Ok by apply Hrun.
               rewrite bool_decide_eq_false_2 by done.
               erewrite bind_Ok by reflexivity. apply Eact. }
           exists [{| call_defx := k; call_name := action_name;
                      call_context := context |}].
           split_and!; [done | |].
           ++ simpl. apply sublist_skip, sublist_nil_l.
           ++ constructor; [|constructor]. by repeat split.
    + pose proof (get_selected_candidates_run cur (_index d) w) as Hrun.
      rewrite Ets in Hrun.
      erewrite bind_Raise.
      2:{ erewrite bind_Raise by apply Hrun. reflexivity. }
      exists []. simpl. rewrite app_nil_r.
      split_and!; [done | apply sublist_nil_l | constructor].
Qed.

(** The loop of [do_action] is the dispatch of the specification: same
    outcome, same View up to the ghost log, and the log gains one entry
    for each session for which the action module ran, in order. *)
Lemma dispatch_loop_refines action_name action_args cur
    (kds : list (nat * Defx)) (w : View) :
  ∃ calls,
    dispatched (snd (for_each (session_step action_name action_args cur) kds w))
      = dispatched w ++ calls ∧
    dispatch action_name action_args cur kds (hide_log w)
      = (fst (for_each (session_step action_name action_args cur) kds w),
         hide_log (snd (for_each (session_step action_name action_args cur) kds w)),
         call_defx <$> calls).
Proof.
  revert w. induction kds as [|[k d] kds IH]; intros w.
  - exists []. simpl. by rewrite app_nil_r.
  - cbn [for_each dispatch].
    pose proof (get_selected_candidates_run cur (_index d) w) as Hrun.
    rewrite get_selected_candidates_hidden.
    destruct (fst (get_selected_candidates cur (_index d) w)) as [[|t ts]|e] eqn:Ets.
    + erewrite !bind_Ok.
      2:{ erewrite bind_Ok by apply Hrun. reflexivity. }
      rewrite bool_decide_eq_true_2 by done. apply IH.
    + rewrite (bool_decide_eq_false_2 (t :: ts = [])) by done.
      change (_context (hide_log w)) with (_context w).
      set (context := _replace (_context w) (t :: ts) action_args cur).
      assert (call_action k action_name context w =
              (fst (action_do_action k action_name context (hide_log w)),
               set_dispatched (λ _, dispatched w ++
                  [{| call_defx := k; call_name := action_name;
                      call_context := context |}])
                 (snd (action_do_action k action_name context (hide_log w))))) as Hcall.
      { unfold call_action.
        by destruct (action_do_action k action_name context (hide_log w)). }
      destruct (action_do_action k action_name context (hide_log w))
        as [[[]|e] v'] eqn:Eact; simpl in Hcall.
      * erewrite !bind_Ok.
        2:{ erewrite bind_Ok by apply Hrun.
            rewrite bool_decide_eq_false_2 by done.
            erewrite bind_Ok by reflexivity. apply Hcall. }
        match goal with |- context [ for_each _ kds ?w1 ] =>
          destruct (IH w1) as (calls & Hlog & Hrun')
        end.
        exists ({| call_defx := k; call_name := action_name;
                   call_context := context |} :: calls).
        split.
        -- rewrite Hlog. simpl. by rewrite <- app_assoc.
        -- change (hide_log (set_dispatched _ v')) with (hide_log v') in Hrun'.
           by rewrite Hrun'.
      * erewrite !bind_Raise.
        2:{ erewrite bind_Ok by apply Hrun.
            rewrite bool_decide_eq_false_2 by done.
            erewrite bind_Ok by reflexivity. apply Hcall. }
        by exists [{| call_defx := k; call_name := action_name;
                      call_context := context |}].
    + erewrite !bind_Raise.
      2:{ erewrite bind_Raise by apply Hrun. reflexivity. }
      exists []. simpl. by rewrite app_nil_r.
Qed.

Lemma filter_none {A : Type} (P : A → Prop) `{∀ x, Decision (P x)} (l : list A) :
  (∀ x, ¬ P x) → filter P l = [].
Proof.
  intros Hno. induction l as [|x l IH]; [done|].
  by rewrite filter_cons_False.
Qed.

(** With an action module that returns and leaves the sequence and the
    selection alone, the sessions called are exactly those with targets. *)
Lemma dispatch_loop_quiet action_name action_args cur (v : View)
    (kds : list (nat * Defx)) (w : View) :
  quiet_actions → agree v w →
  ∃ calls,
    dispatched (snd (for_each (session_step action_name action_args cur) kds w))
      = dispatched w ++ calls ∧
    call_defx <$> calls =
      fst <$> filter (λ kd, has_targets cur (_index (snd kd)) v) kds ∧
    (fst (for_each (session_step action_name action_args cur) kds w) = Ok tt ∨
     ∃ e, fst (for_each (session_step action_name action_args cur) kds w) = Raise e ∧
          ∀ index, has_targets cur index v = false).
Proof.
  intros Hquiet. revert w. induction kds as [|[k d] kds IH]; intros w Hvw.
  - exists []. simpl. rewrite app_nil_r. split_and!; [done | done | by left].
  - cbn [for_each].
    pose proof (get_selected_candidates_run cur (_index d) w) as Hrun.
    destruct (reads_get_selected_candidates cur (_index d)) as [_ Hfst].
    rewrite <- (Hfst v w Hvw) in Hrun.
    destruct (fst (get_selected_candidates cur (_index d) v)) as [[|t ts]|e] eqn:Ets.
    + erewrite bind_Ok.
      2:{ erewrite bind_Ok by apply Hrun. reflexivity. }
      destruct (IH w Hvw) as (calls & Hlog & Hsub & Hres).
      exists calls. split_and!; [done | | done].
      rewrite filter_cons_False; [done|].
      unfold has_targets. simpl. rewrite Ets. by intros [].
    + set (context := _replace (_context w) (t :: ts) action_args cur).
      destruct (Hquiet k action_name context (hide_log w)) as (w1 & Hact & Hc & Hs).
      assert (call_action k action_name context w =
              (Ok tt, set_dispatched (λ _, dispatched w ++
                        [{| call_defx := k; call_name := action_name;
                            call_context := context |}]) w1)) as Hcall.
      { unfold call_action. by rewrite Hact. }
      erewrite bind_Ok.
      2:{ erewrite bind_Ok by apply Hrun.
          rewrite bool_decide_eq_false_2 by done.
          erewrite bind_Ok by reflexivity. apply Hcall. }
      match goal with |- context [ for_each _ kds ?w2 ] =>
        destruct (IH w2) as (calls & Hlog & Hsub & Hres)
      end.
      { destruct Hvw as [Hvc Hvs]. split; simpl in *; congruence. }
      exists ({| call_defx := k; call_name := action_name;
                 call_context := context |} :: calls).
      split_and!; [| | done].
      * rewrite Hlog. simpl. by rewrite <- app_assoc.
      * rewrite filter_cons_True; [simpl; by f_equal|].
        unfold has_targets. simpl. rewrite Ets. exact I.
    + erewrite bind_Raise.
      2:{ erewrite bind_Raise by apply Hrun. reflexivity. }
      assert (∀ index, has_targets cur index v = false) as Hnone.
      { intros index. unfold has_targets.
        by rewrite (get_selected_candidates_raises cur (_index d) index v e Ets). }
      exists []. simpl. rewrite app_nil_r. split_and!; [done | | right; eauto].
      rewrite filter_none; [done|].
      intros [k' d']. simpl. rewrite Hnone. by intros [].
Qed.

(** *** The dispatch of the specification *)

Lemma dispatch_sublist action_name action_args cur (kds : list (nat * Defx)) (v : View) :
  snd (dispatch action_name action_args cur kds v) `sublist_of` fst <$> kds.
Proof.
  revert v. induction kds as [|[k d] kds IH]; intros v; [done|].
  cbn [dispatch].
  destruct (fst (get_selected_candidates cur (_index d) v)) as [ts|e];
    [|apply sublist_nil_l].
  case_bool_decide; [by apply sublist_cons|].
  destruct (action_do_action k action_name _ v) as [[[]|e] v'].
  - specialize (IH (hide_log v')).
    destruct (dispatch action_name action_args cur kds (hide_log v')) as [[r v''] ks].
    simpl in *. by apply sublist_skip.
  - simpl. apply sublist_skip, sublist_nil_l.
Qed.

Lemma dispatch_app action_name action_args cur (before after : list (nat * Defx))
    (v : View) :
  dispatch action_name action_args cur (before ++ after) v =
  match dispatch action_name action_args cur before v with
  | (Ok _, w, ks) =>
      let '(r, w', ks') := dispatch action_name action_args cur after w in
      (r, w', ks ++ ks')
  | (Raise e, w, ks) => (Raise e, w, ks)
  end.
Proof.
  revert v. induction before as [|[k d] before IH]; intros v.
  - simpl. by destruct (dispatch action_name action_args cur after v) as [[r w'] ks'].
  - cbn [app dispatch].
    destruct (fst (get_selected_candidates cur (_index d) v)) as [ts|e]; [|done].
    case_bool_decide; [apply IH|].
    destruct (action_do_action k action_name _ v) as [[[]|e] v']; [|done].
    rewrite IH.
    destruct (dispatch action_name action_args cur before (hide_log v'))
      as [[[[]|e] w] ks]; [|done].
    by destruct (dispatch action_name action_args cur after w) as [[r w'] ks'].
Qed.

(** A session is called exactly when the dispatch of the sessions before
    it returned and, on the View they left, it has targets. *)
Lemma dispatch_called_iff action_name action_args cur
    (before after : list (nat * Defx)) (k : nat) (d : Defx) (v : View) :
  k ∉ fst <$> before → k ∉ fst <$> after →
  k ∈ snd (dispatch action_name action_args cur (before ++ (k, d) :: after) v) ↔
  fst (fst (dispatch action_name action_args cur before v)) = Ok tt ∧
  has_targets cur (_index d)
    (snd (fst (dispatch action_name action_args cur before v))) = true.
Proof.
  intros Hbefore Hafter. rewrite dispatch_app.
  pose proof (dispatch_sublist action_name action_args cur before v) as Hsub.
  destruct (dispatch action_name action_args cur before v) as [[[[]|e] w] ks];
    simpl in *.
  2:{ split; [|by intros [? _]]. intros Hk. destruct Hbefore.
      by eapply elem_of_sublist. }
  assert (k ∉ ks) as Hks by (intros Hk; destruct Hbefore; by eapply elem_of_sublist).
  unfold has_targets.
  destruct (fst (get_selected_candidates cur (_index d) w)) as [[|t ts]|e].
  - rewrite bool_decide_eq_true_2 by done.
    pose proof (dispatch_sublist action_name action_args cur after w) as Hsub'.
    destruct (dispatch action_name action_args cur after w) as [[r w'] ks'].
    simpl in *. split; [|by intros [_ ?]].
    intros Hk. apply elem_of_app in Hk as [Hk|Hk]; [done|].
    destruct Hafter. by eapply elem_of_sublist.
  - rewrite bool_decide_eq_false_2 by done.
    destruct (action_do_action k action_name _ w) as [[[]|e] v'].
    + destruct (dispatch action_name action_args cur after (hide_log v'))
        as [[r w'] ks'].
      simpl. split; [done|]. intros _. apply elem_of_app. right. left.
    + simpl. split; [done|]. intros _. apply elem_of_app. right. left.
  - simpl. rewrite app_nil_r. split; [done | by intros [_ ?]].
Qed.

(** C7 — When the aggregated sequence is empty, [do_action] returns at once
    and the action module is not called.  Otherwise [do_action] is the
    dispatch over the sessions in index order: the targets of a session
    are computed when its turn comes, on the View as the earlier actions
    left it; a session without targets is skipped; for a session with
    targets the action module runs exactly once, with the action name, the
    arguments, the cursor line and those targets; and the first exception,
    from an action or from computing targets, ends the dispatch, so the
    sessions after it are not called.  A session is thus called exactly
    when everything before it returned and it then has targets; and when
    the actions return and leave the sequence and the selection alone, the
    sessions called are exactly those with targets. *)
Theorem C7_dispatch_in_session_order
    (action_name : string) (action_args : list string) (cur : Z) (v : View) :
  let r := do_action action_name action_args cur v in
  let visited := imap pair (_defxs v) in
  (_candidates v = [] → r = (Ok tt, v)) ∧
  ∃ calls,
    dispatched (snd r) = dispatched v ++ calls ∧
    call_defx <$> calls `sublist_of` seq 0 (length (_defxs v)) ∧
    NoDup (call_defx <$> calls) ∧
    Forall (well_formed_call action_name action_args cur) calls ∧
    (_candidates v ≠ [] →
       dispatch action_name action_args cur visited (hide_log v)
         = (fst r, hide_log (snd r), call_defx <$> calls) ∧
       ∀ k d, _defxs v !! k = Some d →
         k ∈ call_defx <$> calls ↔
         fst (fst (dispatch action_name action_args cur (take k visited) (hide_log v)))
           = Ok tt ∧
         has_targets cur (_index d)
           (snd (fst (dispatch action_name action_args cur (take k visited)
                        (hide_log v)))) = true) ∧
    (quiet_actions → _candidates v ≠ [] →
       call_defx <$> calls =
         fst <$> filter (λ kd, has_targets cur (_index (snd kd)) v) visited ∧
       (fst r = Ok tt ∨
        ∃ e, fst r = Raise e ∧ ∀ index, has_targets cur index v = false)).
Proof.
  intros r visited. subst r visited. unfold do_action.
  erewrite bind_Ok by reflexivity. cbv beta.
  case_bool_decide as Hcs.
  - split; [done|]. exists []. simpl. rewrite app_nil_r.
    split_and!; [done | apply sublist_nil_l | constructor | constructor | done | done].
  - split; [done|].
    erewrite bind_Ok by reflexivity. cbv beta.
    destruct (dispatch_loop_calls action_name action_args cur
                (imap pair (_defxs v)) v) as (calls & Hlog & Hsub & Hall).
    exists calls. rewrite imap_pair_fst in Hsub.
    split_and!; [done | done | | done | |].
    + eapply sublist_NoDup; [apply NoDup_seq | exact Hsub].
    + intros _.
      destruct (dispatch_loop_refines action_name action_args cur
                  (imap pair (_defxs v)) v) as (calls' & Hlog' & Hrun).
      rewrite Hlog in Hlog'. apply app_inv_head in Hlog'. subst calls'.
      split; [done|]. intros k d Hk.
      assert (imap pair (_defxs v) !! k = Some (k, d)) as Hk'
        by (by rewrite list_lookup_imap, Hk).
      assert (call_defx <$> calls =
              snd (dispatch action_name action_args cur
                     (take k (imap pair (_defxs v)) ++
                      (k, d) :: drop (S k) (imap pair (_defxs v))) (hide_log v))) as ->.
      { by rewrite take_drop_middle, Hrun by done. }
      apply dispatch_called_iff.
      * rewrite fmap_take, imap_pair_fst, take_seq, elem_of_seq. lia.
      * rewrite fmap_drop, imap_pair_fst, drop_seq, elem_of_seq. lia.
    + intros Hquiet _.
      destruct (dispatch_loop_quiet action_name action_args cur v
                  (imap pair (_defxs v)) v Hquiet) as (calls' & Hlog' & Hexact & Hres);
        [done|].
      rewrite Hlog in Hlog'. apply app_inv_head in Hlog'. by subst calls'.
Qed.

End Properties.

(** ** The View over two sessions *)

Lemma demo_actions_quiet : @quiet_actions demo_actions.
Proof. intros k action_name context v. by exists v. Qed.

Lemma demo_candidates :
  _candidates demo_view =
  [tag (Defx_new "/a" 0) (demo_candidate "/a");
   tag (Defx_new "/a" 0) (demo_candidate "/a/1");
   tag (Defx_new "/a" 0) (demo_candidate "/a/2");
   tag (Defx_new "/b" 1) (demo_candidate "/b");
   tag (Defx_new "/b" 1) (demo_candidate "/b/1")].
Proof. vm_cast_no_check (eq_refl (_candidates demo_view)). Qed.

(** C4 — A rebuild, as a forced redraw performs it, makes the aggregated
    sequence the concatenation over the sessions, in their order, of the
    session's root candidate followed by its descendants in the session's
    own order, each tagged with the index of its session; the sessions are
    indexed by their position.  For two sessions rooted at /a (entries
    /a/1, /a/2) and /b (entry /b/1) the sequence built at construction is
    [root(/a), /a/1, /a/2, root(/b), /b/1], and [search_file("/b/1", 1)]
    puts the cursor on line 5. *)
Theorem C4_aggregated_sequence_order :
  (∀ (sessions : TreeSession) (v : View),
     (modify (set_selected_candidates (λ _, []));; init_candidates) v =
     (Ok tt, set_candidates (λ _, aggregated_sequence (_defxs v))
               (set_selected_candidates (λ _, []) v))) ∧
  (∀ (sessions : TreeSession), aggregated_sequence [] = []) ∧
  (∀ (sessions : TreeSession) (d : Defx) (ds : list Defx),
     aggregated_sequence (d :: ds) =
     tag d (get_root_candidate d) :: (tag d <$> gather_candidates d)
       ++ aggregated_sequence ds) ∧
  (∀ (d : Defx) (c : Candidate),
     tag d c !! "_defx_index" = Some (PyInt (_index d))) ∧
  (∀ (sessions : TreeSession) (columns : Columns) (host : Host) vim paths context,
     _index <$> _defxs (snd (View_init vim paths context)) =
     Z.of_nat <$> seq 0 (length paths)) ∧
  fst (@View_init demo_sessions demo_columns demo_host demo_vim ["/a"; "/b"] demo_context)
    = Ok tt ∧
  _candidates demo_view =
    [tag (Defx_new "/a" 0) (demo_candidate "/a");
     tag (Defx_new "/a" 0) (demo_candidate "/a/1");
     tag (Defx_new "/a" 0) (demo_candidate "/a/2");
     tag (Defx_new "/b" 1) (demo_candidate "/b");
     tag (Defx_new "/b" 1) (demo_candidate "/b/1")] ∧
  search_file_scan (_candidates demo_view) (PyStr "/b/1") (PyInt 1) 1 = Ok (Some 5%positive) ∧
  line (_vim (snd (search_file (PyStr "/b/1") (PyInt 1) demo_view))) = 5%positive.
Proof.
  split_and!.
  - intros sessions v. apply forced_rebuild.
  - done.
  - intros sessions d ds. reflexivity.
  - intros d c. apply lookup_insert_eq.
  - intros sessions columns host vim paths context.
    rewrite View_init_defxs.
    assert (∀ n, _index <$> imap (λ index path, Defx_new path (Z.of_nat (n + index))) paths
                 = Z.of_nat <$> seq n (length paths)) as H.
    { induction paths as [|p ps IH]; intros n; [done|].
      simpl. f_equal; [f_equal; lia|].
      etrans; [|apply (IH (S n))].
      apply (f_equal (fmap _index)).
      apply imap_ext. intros i y _. simpl. do 2 f_equal. lia. }
    apply (H 0%nat).
  - vm_compute. reflexivity.
  - apply demo_candidates.
  - vm_compute. reflexivity.
  - vm_compute. reflexivity.
Qed.

(** ** The theorems at work on the two-session View *)

Lemma demo_fresh_length (selected : list Z) :
  length (@aggregated_sequence demo_sessions
            (_defxs (set_selected_candidates (λ _, selected) demo_view))) = 5%nat.
Proof. vm_compute. reflexivity. Qed.

Lemma C8_witness :
  (λ c, (col_start c, col_end c)) <$>
    init_columns 1 [@Mark demo_columns; @Filename demo_columns; @Mark demo_columns]
  = [(1, 2); (3, 102); (103, 104)].
Proof.
  pose proof (@C8_column_spans_contiguous demo_sessions demo_columns demo_host
                [@Mark demo_columns; @Filename demo_columns; @Mark demo_columns]) as H.
  cbv zeta in H. destruct H as (_ & _ & _ & _ & H & _).
  exact (H 2 100 2 eq_refl).
Defined.

Lemma C9_witness :
  _candidates demo_view ≠ [] ∧
  ∃ c, last (_candidates demo_view) = Some c ∧
       get_cursor_candidate 0 demo_view = (Ok c, demo_view).
Proof.
  assert (_candidates demo_view ≠ []) as Hne
    by (rewrite demo_candidates; discriminate).
  split; [exact Hne|]. exact (C9_cursor_zero_returns_last demo_view Hne).
Defined.

Lemma C6_witness :
  search_file_scan (_candidates demo_view) (PyStr "/b/1") (PyInt 1) 1
    = Ok (Some 5%positive) ∧
  search_file (PyStr "/b/1") (PyInt 1) demo_view
    = (Ok tt, set_vim (set_line 5%positive) demo_view).
Proof.
  assert (search_file_scan (_candidates demo_view) (PyStr "/b/1") (PyInt 1) 1
          = Ok (Some 5%positive)) as Hscan by (vm_compute; reflexivity).
  split; [exact Hscan|].
  pose proof (C6_locate_then_candidate_at demo_view _ _ _ Hscan) as H.
  cbv zeta in H. exact (proj1 H).
Defined.

Lemma C10_witness :
  (∀ c, c ∈ _candidates demo_view →
        candidate_matches (PyStr "/a/1") (PyInt 1) c = false) ∧
  snd (search_file (PyStr "/a/1") (PyInt 1) demo_view) = demo_view.
Proof.
  assert (∀ c, c ∈ _candidates demo_view →
               candidate_matches (PyStr "/a/1") (PyInt 1) c = false) as Hno.
  { rewrite demo_candidates. intros c Hc.
    repeat (apply elem_of_cons in Hc as [->|Hc]; [reflexivity|]).
    by apply elem_of_nil in Hc. }
  split; [exact Hno|].
  exact (proj1 (C10_locate_no_match_no_move demo_view _ _ Hno)).
Defined.

Lemma C1_witness :
  (∃ marked,
     @init_candidates demo_sessions demo_selected
       = (Ok tt, set_candidates (λ _, marked) demo_selected) ∧
     length marked = 5%nat) ∧
  (∃ v', @init_candidates demo_sessions demo_stale = (Raise IndexError, v')).
Proof.
  split.
  - destruct (proj1 (@C1_selection_mask_projection demo_sessions demo_selected))
      as (marked & Hrun & Hlen & _).
    + unfold demo_selected. rewrite demo_fresh_length.
      repeat constructor; unfold in_range; simpl; lia.
    + exists marked. split; [exact Hrun|].
      rewrite Hlen. apply demo_fresh_length.
  - apply (proj1 (proj2 (@C1_selection_mask_projection demo_sessions demo_stale))).
    unfold demo_stale. rewrite demo_fresh_length.
    intros Hall. apply Forall_cons in Hall as [[_ Hlt] _]. simpl in Hlt. lia.
Defined.

(** The claim of C1 fails: with a position left over from a longer
    sequence the rebuild raises. *)
Lemma C1_counterexample :
  _selected_candidates demo_stale = [7] ∧
  length (@aggregated_sequence demo_sessions (_defxs demo_stale)) = 5%nat ∧
  fst (@init_candidates demo_sessions demo_stale) = Raise IndexError.
Proof. vm_compute. done. Qed.

Lemma C2_witness :
  @cd demo_sessions demo_columns demo_host 0 "/b" 6 demo_view
    = (Raise (KeyError "action__path"), demo_view).
Proof.
  apply (@C2_cd_beyond_sequence_raises demo_sessions demo_columns demo_host
           demo_view 0%nat (Defx_new "/a" 0) "/b" 6).
  - vm_compute. reflexivity.
  - rewrite demo_candidates. simpl. lia.
Defined.

Lemma C3_witness :
  fst (@cd demo_sessions demo_columns demo_host 0 "/zz" 2 demo_view) = Raise CdRejected ∧
  _selected_candidates (snd (@cd demo_sessions demo_columns demo_host 0 "/zz" 2 demo_view))
    = _selected_candidates demo_view ∧
  _vim (snd (@cd demo_sessions demo_columns demo_host 0 "/zz" 2 demo_view))
    = _vim demo_view.
Proof.
  assert (_defxs demo_view !! 0%nat = Some (Defx_new "/a" 0)) as Hk
    by (vm_compute; reflexivity).
  assert (fst (get_cursor_candidate 2 demo_view)
          = Ok (tag (Defx_new "/a" 0) (demo_candidate "/a/1"))) as Hc
    by (vm_compute; reflexivity).
  pose proof (@C3_rejected_cd_keeps_display demo_sessions demo_columns demo_host
                demo_view 0%nat (Defx_new "/a" 0) "/zz" 2
                (tag (Defx_new "/a" 0) (demo_candidate "/a/1")) (PyStr "/a/1")
                Hk Hc eq_refl eq_refl) as H.
  cbv zeta in H. destruct H as (Hr & Hs & _ & Hv & _).
  split_and!; [exact Hr | exact Hs | exact Hv].
Defined.

(** The claim of C3 fails: the rejected navigation has changed the
    history of the session. *)
Lemma C3_counterexample :
  let r := @cd demo_sessions demo_columns demo_host 0 "/zz" 2 demo_view in
  @cd_accepted demo_sessions (Defx_new "/a" 0) "/zz" = false ∧
  fst r = Raise CdRejected ∧
  (_cursor_history <$> _defxs demo_view) !! 0%nat = Some ∅ ∧
  (_cursor_history <$> _defxs (snd r)) !! 0%nat = Some {[ "/a" := PyStr "/a/1" ]} ∧
  _defxs (snd r) ≠ _defxs demo_view.
Proof.
  split_and!; try (vm_compute; reflexivity).
  intros H. apply (f_equal (λ ds, (_cursor_history <$> ds) !! 0%nat)) in H.
  vm_compute in H. discriminate.
Qed.


Lemma C7_witness :
  ∃ calls,
    dispatched (snd (@do_action demo_actions "open" [] 5 demo_view)) = calls ∧
    call_defx <$> calls = [1%nat] ∧
    fst (@do_action demo_actions "open" [] 5 demo_view) = Ok tt ∧
    (0%nat ∈ call_defx <$> calls ↔
     Ok tt = Ok tt ∧ has_targets 5 0 (hide_log demo_view) = true).
Proof.
  pose proof (@C7_dispatch_in_session_order demo_actions "open" [] 5 demo_view) as H.
  cbv zeta in H. destruct H as (_ & calls & Hlog & _ & _ & _ & Hrun & Hexact).
  assert (_candidates demo_view ≠ []) as Hne
    by (rewrite demo_candidates; discriminate).
  exists calls. split; [exact Hlog|].
  destruct (Hexact demo_actions_quiet Hne) as [Hcalls Hres].
  destruct (Hrun Hne) as [_ Hiff].
  split_and!.
  - rewrite Hcalls. vm_compute. reflexivity.
  - vm_compute. reflexivity.
  - apply (Hiff 0%nat (Defx_new "/a" 0)). vm_compute. reflexivity.
Defined.

(** The claim of C7 fails.  With the candidates at positions 1 and -1
    selected, both sessions have targets; when the action fails for
    session 0 the dispatch ends there, and when the action for session 0
    clears the selection session 1 has no target left when its turn
    comes: either way the action module is called for session 0 only. *)
Lemma C7_counterexample :
  length (_candidates demo_selected) = 5%nat ∧
  has_targets 2 0 demo_selected = true ∧
  has_targets 2 1 demo_selected = true ∧
  fst (@do_action rejecting_actions "open" [] 2 demo_selected) = Raise CdRejected ∧
  call_defx <$> dispatched (snd (@do_action rejecting_actions "open" [] 2 demo_selected))
    = [0%nat] ∧
  fst (@do_action clearing_actions "open" [] 2 demo_selected) = Ok tt ∧
  call_defx <$> dispatched (snd (@do_action clearing_actions "open" [] 2 demo_selected))
    = [0%nat].
Proof.
  split_and!; vm_compute; reflexivity.
Qed.
